(** * que.js: a viewport watcher, embedded and verified

    The development follows [src/que.js] function by function.  The
    factory returns one function, [que]; it closes over the merged
    [options], the element [el] found by [document.querySelector], and
    one mutable variable, [activated].  Everything the closure touches
    in the host (the element's class list, the two window listeners,
    the user callback) is kept in one explicit [State] that every
    function threads through.

    Conventions of the embedding:
    - pixel quantities ([rect.top], [rect.bottom], [offset],
      [innerHeight], [clientHeight]) are integers ([Z]);
    - [el.classList] is an ordered token set, a [list string] with the
      DOM's [add] (append when absent) and [remove];  class names are
      taken to be valid tokens, so [add] and [remove] do not throw;
    - [document.querySelector] answers an element or [null], or throws
      a [SyntaxError] on a string that is not a selector;  [que] has no
      handler, so the error is [que]'s own outcome;
    - the callback is user code: each invocation [callback(el, action)]
      is appended to the log [calls]; what the callback does on its own
      is outside the model. *)

From Stdlib Require Import ZArith List String Bool Arith Lia.
Import ListNotations.

Module Que.

Local Open Scope string_scope.
Local Open Scope list_scope.
Local Open Scope Z_scope.

(** ** The host: DOM tokens, elements, the document *)

Definition Element := nat.
Definition ClassList := list string.

Definition contains (c : string) (l : ClassList) : bool :=
  existsb (String.eqb c) l.

(** [DOMTokenList.add]: the token is appended unless already there. *)
Definition classList_add (c : string) (l : ClassList) : ClassList :=
  if contains c l then l else l ++ [c].

(** [DOMTokenList.remove]: the token is taken out. *)
Definition classList_remove (c : string) (l : ClassList) : ClassList :=
  filter (fun t => negb (String.eqb c t)) l.

(** What [document.querySelector(selector)] comes to:  a [SyntaxError]
    thrown for a string that is not a selector, [null] when no element
    matches, or the first element that does. *)
Inductive Lookup := SyntaxError | Null | Found (e : Element).

Definition Document := string -> Lookup.

(** ** Options (lines 53-60) *)

(** The value stored under [callback]; only [typeof v === 'function']
    is ever asked of it. *)
Inductive CallbackValue := CbNull | CbOther | CbFunction.

Definition is_function (v : CallbackValue) : bool :=
  match v with CbFunction => true | _ => false end.

Record Options := mkOptions {
  classToAdd : string;
  classToRemove : option string;   (* [None] is [null] *)
  offset : Z;
  once : bool;
  repeat : bool;
  callback : CallbackValue
}.

(** The caller's [opts] object: each key present or not. *)
Record Opts := mkOpts {
  o_classToAdd : option string;
  o_classToRemove : option (option string);
  o_offset : option Z;
  o_once : option bool;
  o_repeat : option bool;
  o_callback : option CallbackValue
}.

Definition empty_opts : Opts := mkOpts None None None None None None.

Definition defaults : Options :=
  {| classToAdd := "que"; classToRemove := None; offset := 0;
     once := true; repeat := false; callback := CbNull |}.

Definition or_default {A} (supplied : option A) (d : A) : A :=
  match supplied with Some v => v | None => d end.

(** [Object.assign(target, source)]: keys of the source win. *)
Definition Object_assign (target : Options) (source : Opts) : Options :=
  {| classToAdd := or_default (o_classToAdd source) (classToAdd target);
     classToRemove := or_default (o_classToRemove source) (classToRemove target);
     offset := or_default (o_offset source) (offset target);
     once := or_default (o_once source) (once target);
     repeat := or_default (o_repeat source) (repeat target);
     callback := or_default (o_callback source) (callback target) |}.

(** [Object.assign({defaults}, opts || {})] *)
Definition merge_options (opts : option Opts) : Options :=
  Object_assign defaults (or_default opts empty_opts).

(** JavaScript truthiness of a string-or-null: [null] and the empty
    string are falsy. *)
Definition truthy (v : option string) : option string :=
  match v with
  | Some c => if String.eqb c "" then None else Some c
  | None => None
  end.

(** ** State *)

Inductive Action := Add | Remove.

Record State := mkState {
  classList : Element -> ClassList;     (* [e.classList] of every element *)
  activated : bool;                     (* the closure variable *)
  scroll_listener : bool;               (* is [check] registered for 'scroll' *)
  resize_listener : bool;               (* is [check] registered for 'resize' *)
  calls : list (Element * Action)       (* callback invocations, oldest first *)
}.

(** What [check] reads from the host at the time it runs. *)
Record Env := mkEnv {
  rect_top : Z;          (* [el.getBoundingClientRect().top] *)
  rect_bottom : Z;       (* [el.getBoundingClientRect().bottom] *)
  innerHeight : Z;       (* [window.innerHeight] *)
  clientHeight : Z       (* [document.documentElement.clientHeight] *)
}.

(** The closure created by one call of [que]. *)
Record Watcher := mkWatcher {
  options : Options;
  el : Element
}.

(** *** Host primitives, as state transformers *)

Definition update_classList (e : Element) (f : ClassList -> ClassList)
    (st : State) : State :=
  {| classList := fun x => if Nat.eqb x e then f (classList st x) else classList st x;
     activated := activated st;
     scroll_listener := scroll_listener st;
     resize_listener := resize_listener st;
     calls := calls st |}.

Definition invoke_callback (e : Element) (a : Action) (st : State) : State :=
  {| classList := classList st;
     activated := activated st;
     scroll_listener := scroll_listener st;
     resize_listener := resize_listener st;
     calls := calls st ++ [(e, a)] |}.

Definition set_activated (b : bool) (st : State) : State :=
  {| classList := classList st;
     activated := b;
     scroll_listener := scroll_listener st;
     resize_listener := resize_listener st;
     calls := calls st |}.

Definition set_listeners (scroll resize : bool) (st : State) : State :=
  {| classList := classList st;
     activated := activated st;
     scroll_listener := scroll;
     resize_listener := resize;
     calls := calls st |}.

(** ** The watcher (lines 67-103) *)

(** Lines 67-74. *)
Definition activate (w : Watcher) (st : State) : State :=
  let o := options w in
  let st := update_classList (el w) (classList_add (classToAdd o)) st in
  let st := match truthy (classToRemove o) with
            | Some r => update_classList (el w) (classList_remove r) st
            | None => st
            end in
  let st := if is_function (callback o)
            then invoke_callback (el w) Add st else st in
  set_activated true st.

(** Lines 76-83. *)
Definition deactivate (w : Watcher) (st : State) : State :=
  let o := options w in
  let st := update_classList (el w) (classList_remove (classToAdd o)) st in
  let st := match truthy (classToRemove o) with
            | Some r => update_classList (el w) (classList_add r) st
            | None => st
            end in
  let st := if is_function (callback o)
            then invoke_callback (el w) Remove st else st in
  set_activated false st.

(** Lines 100-103. *)
Definition detach (st : State) : State :=
  set_listeners false false st.

(** Line 87: [window.innerHeight || document.documentElement.clientHeight]. *)
Definition viewport_height (env : Env) : Z :=
  if innerHeight env =? 0 then clientHeight env else innerHeight env.

(** Line 88. *)
Definition inView (o : Options) (env : Env) : bool :=
  (rect_top env <? viewport_height env - offset o)
  && (rect_bottom env >? offset o).

(** Lines 85-98. *)
Definition check (w : Watcher) (env : Env) (st : State) : State :=
  let o := options w in
  if inView o env && (negb (activated st) || repeat o) then
    let st := activate w st in
    if once o && negb (repeat o) then detach st else st
  else if negb (inView o env) && activated st && repeat o then
    deactivate w st
  else st.

(** How a call of [que] ends:  by the exception that escaped it, or
    by returning the handle (here the closure itself, whose only method
    is [detach]), [None] being [undefined]. *)
Inductive Completion := Threw | Returned (handle : option Watcher).

(** Lines 52-110.  Line 62 is the only call that can throw, and it
    comes before anything is registered or changed. *)
Definition que (document : Document) (selector : string)
    (opts : option Opts) (env : Env) (st : State) : Completion * State :=
  let options := merge_options opts in
  match document selector with
  | SyntaxError => (Threw, st)
  | Null => (Returned None, st)
  | Found e =>
      let w := {| options := options; el := e |} in
      let st := set_activated false st in
      let st := set_listeners true true st in
      let st := check w env st in
      (Returned (Some w), st)
  end.

(** ** Signals *)

Inductive Signal := Scroll | Resize.

Definition listening (s : Signal) (st : State) : bool :=
  match s with
  | Scroll => scroll_listener st
  | Resize => resize_listener st
  end.

(** The window delivers a signal to [check] only while it is registered. *)
Definition dispatch (w : Watcher) (ev : Signal * Env) (st : State) : State :=
  if listening (fst ev) st then check w (snd ev) st else st.

Definition deliver (w : Watcher) (evs : list (Signal * Env)) (st : State) : State :=
  fold_left (fun s ev => dispatch w ev s) evs st.

(** A sequence of runs of [check], one per environment. *)
Definition checks (w : Watcher) (envs : list Env) (st : State) : State :=
  fold_left (fun s env => check w env s) envs st.

(** Which branch of [check] is taken. *)
Inductive Transition := Activates | Deactivates | Idle.

Definition transition (w : Watcher) (env : Env) (st : State) : Transition :=
  let o := options w in
  if inView o env && (negb (activated st) || repeat o) then Activates
  else if negb (inView o env) && activated st && repeat o then Deactivates
  else Idle.

Fixpoint transitions (w : Watcher) (envs : list Env) (st : State)
    : list Transition :=
  match envs with
  | [] => []
  | env :: rest => transition w env st :: transitions w rest (check w env st)
  end.

(** What [activate] and [deactivate] make of the element's class list. *)
Definition activate_classes (o : Options) (l : ClassList) : ClassList :=
  let l := classList_add (classToAdd o) l in
  match truthy (classToRemove o) with
  | Some r => classList_remove r l
  | None => l
  end.

Definition deactivate_classes (o : Options) (l : ClassList) : ClassList :=
  let l := classList_remove (classToAdd o) l in
  match truthy (classToRemove o) with
  | Some r => classList_add r l
  | None => l
  end.

(** The callback log entry an invocation leaves, if the callback is callable. *)
Definition logged (w : Watcher) (a : Action) : list (Element * Action) :=
  if is_function (callback (options w)) then [(el w, a)] else [].

(** The expected course of a watcher with [repeat] set over [n]
    alternating checks: [activate] when entering, [deactivate] when
    leaving; and the actions its callback is then called with. *)
Fixpoint toggle (w : Watcher) (entering : bool) (n : nat) (st : State) : State :=
  match n with
  | O => st
  | S n' =>
      toggle w (negb entering) n'
        (if entering then activate w st else deactivate w st)
  end.

Fixpoint toggle_actions (entering : bool) (n : nat) : list Action :=
  match n with
  | O => []
  | S n' => (if entering then Add else Remove)
            :: toggle_actions (negb entering) n'
  end.

(** The rectangles of [envs] are in view, out of view, in view, ...
    starting with [expect]. *)
Fixpoint alternates (o : Options) (expect : bool) (envs : list Env) : bool :=
  match envs with
  | [] => true
  | env :: rest =>
      Bool.eqb (inView o env) expect && alternates o (negb expect) rest
  end.

(** Both classes at once on the class list. *)
Definition has_both (o : Options) (r : string) (l : ClassList) : Prop :=
  In (classToAdd o) l /\ In r l.

(** The same watcher with another [once] flag. *)
Definition with_once (b : bool) (w : Watcher) : Watcher :=
  {| options :=
       {| classToAdd := classToAdd (options w);
          classToRemove := classToRemove (options w);
          offset := offset (options w);
          once := b;
          repeat := repeat (options w);
          callback := callback (options w) |};
     el := el w |}.

Definition is_activation (t : Transition) : bool :=
  match t with Activates => true | _ => false end.

Definition activations (ts : list Transition) : nat :=
  List.length (filter is_activation ts).

(** *** Sample data *)

(** A page on which [check] is registered and nothing has happened. *)
Definition fresh : State :=
  {| classList := fun _ => [];
     activated := false;
     scroll_listener := true;
     resize_listener := true;
     calls := [] |}.

(** Viewport 800 high; a rectangle inside it and one below it. *)
Definition env_inside : Env := mkEnv 700 750 800 0.
Definition env_below : Env := mkEnv 900 950 800 0.

(** The same page, the element carrying both sample classes. *)
Definition fresh_with_both : State :=
  {| classList := fun _ => ["inview"; "outview"];
     activated := false;
     scroll_listener := true;
     resize_listener := true;
     calls := [] |}.

(** One element, under [".sect-1"];  the empty string is no selector. *)
Definition sample_document : Document :=
  fun sel =>
    if String.eqb sel "" then SyntaxError
    else if String.eqb sel ".sect-1" then Found 7%nat
    else Null.

(** A watcher whose [callback] option holds something that is not a
    function. *)
Definition uncallable_watcher : Watcher :=
  {| options := mkOptions "inview" (Some "outview") 50 false true CbOther;
     el := 7%nat |}.

Definition with_flags (once_ repeat_ : bool) : Options :=
  {| classToAdd := "inview"; classToRemove := Some "outview"; offset := 50;
     once := once_; repeat := repeat_; callback := CbFunction |}.

Definition sample_watcher (once_ repeat_ : bool) : Watcher :=
  {| options := with_flags once_ repeat_; el := 7%nat |}.

(** *** Further vocabulary for runs *)

(** The actions the callback is called with along a run of checks. *)
Fixpoint emitted (w : Watcher) (envs : list Env) (st : State) : list Action :=
  match envs with
  | [] => []
  | env :: rest =>
      (if is_function (callback (options w))
       then match transition w env st with
            | Activates => [Add]
            | Deactivates => [Remove]
            | Idle => []
            end
       else [])
      ++ emitted w rest (check w env st)
  end.

(** No ["remove"] unless the action before it was an ["add"];  [armed]
    says whether an ["add"] is pending when the list begins. *)
Fixpoint sequenced (armed : bool) (acts : list Action) : bool :=
  match acts with
  | [] => true
  | Add :: rest => sequenced true rest
  | Remove :: rest => armed && sequenced false rest
  end.

(** The same watcher with another [classToRemove]. *)
Definition with_classToRemove (v : option string) (w : Watcher) : Watcher :=
  {| options :=
       {| classToAdd := classToAdd (options w);
          classToRemove := v;
          offset := offset (options w);
          once := once (options w);
          repeat := repeat (options w);
          callback := callback (options w) |};
     el := el w |}.

(** The same signals, all delivered as scroll signals. *)
Definition as_scroll (evs : list (Signal * Env)) : list (Signal * Env) :=
  map (fun ev => (Scroll, snd ev)) evs.

(** A viewport 800 high whose margins of 400 meet in the middle. *)
Definition wide_margin : Options :=
  {| classToAdd := "inview"; classToRemove := None; offset := 400;
     once := true; repeat := false; callback := CbNull |}.

Definition env_thin : Env := mkEnv 400 400 800 0.

(** * Properties *)

(** ** Class lists *)

Lemma contains_In c l : contains c l = true <-> In c l.
Proof.
  unfold contains. rewrite existsb_exists. split.
  - intros [x [Hx Heq]]. apply String.eqb_eq in Heq. now subst.
  - intros H. exists c. split; [assumption | apply String.eqb_refl].
Qed.

Lemma In_classList_add x c l : In x (classList_add c l) <-> x = c \/ In x l.
Proof.
  unfold classList_add. destruct (contains c l) eqn:E.
  - apply contains_In in E. split; [now right | intros [-> | H]; assumption].
  - rewrite in_app_iff. simpl. split.
    + intros [H | [H | []]]; [now right | now left].
    + intros [-> | H]; [right; now left | now left].
Qed.

Lemma In_classList_remove x c l : In x (classList_remove c l) <-> x <> c /\ In x l.
Proof.
  unfold classList_remove. rewrite filter_In. split.
  - intros [H Hneq]. split; [| assumption].
    intros ->. now rewrite String.eqb_refl in Hneq.
  - intros [Hneq H]. split; [assumption |].
    destruct (String.eqb c x) eqn:E; [| reflexivity].
    apply String.eqb_eq in E. now subst.
Qed.

Lemma truthy_Some v r : truthy v = Some r <-> v = Some r /\ r <> "".
Proof.
  unfold truthy. destruct v as [c |].
  - destruct (String.eqb c "") eqn:E.
    + apply String.eqb_eq in E. subst. split; [discriminate |].
      intros [H Hne]. inversion H. now subst.
    + apply String.eqb_neq in E. split.
      * intros H. inversion H. subst. now split.
      * intros [H _]. assumption.
  - split; [discriminate | intros [H _]; discriminate].
Qed.

(** ** What each operation leaves in each field *)

Section Fields.

Variable w : Watcher.

Lemma classList_activate st :
  classList (activate w st) (el w)
  = activate_classes (options w) (classList st (el w)).
Proof.
  unfold activate, activate_classes.
  destruct (truthy (classToRemove (options w)));
    destruct (is_function (callback (options w)));
    simpl; now rewrite ?Nat.eqb_refl.
Qed.

Lemma classList_deactivate st :
  classList (deactivate w st) (el w)
  = deactivate_classes (options w) (classList st (el w)).
Proof.
  unfold deactivate, deactivate_classes.
  destruct (truthy (classToRemove (options w)));
    destruct (is_function (callback (options w)));
    simpl; now rewrite ?Nat.eqb_refl.
Qed.

Lemma classList_activate_other st e :
  e <> el w -> classList (activate w st) e = classList st e.
Proof.
  intros Hne. apply Nat.eqb_neq in Hne. unfold activate.
  destruct (truthy (classToRemove (options w)));
    destruct (is_function (callback (options w)));
    simpl; now rewrite ?Hne.
Qed.

Lemma classList_deactivate_other st e :
  e <> el w -> classList (deactivate w st) e = classList st e.
Proof.
  intros Hne. apply Nat.eqb_neq in Hne. unfold deactivate.
  destruct (truthy (classToRemove (options w)));
    destruct (is_function (callback (options w)));
    simpl; now rewrite ?Hne.
Qed.

Lemma calls_activate st : calls (activate w st) = calls st ++ logged w Add.
Proof.
  unfold activate, logged.
  destruct (truthy (classToRemove (options w)));
    destruct (is_function (callback (options w)));
    simpl; now rewrite ?app_nil_r.
Qed.

Lemma calls_deactivate st : calls (deactivate w st) = calls st ++ logged w Remove.
Proof.
  unfold deactivate, logged.
  destruct (truthy (classToRemove (options w)));
    destruct (is_function (callback (options w)));
    simpl; now rewrite ?app_nil_r.
Qed.

Lemma activated_activate st : activated (activate w st) = true.
Proof. reflexivity. Qed.

Lemma activated_deactivate st : activated (deactivate w st) = false.
Proof. reflexivity. Qed.

Lemma listeners_activate st :
  scroll_listener (activate w st) = scroll_listener st
  /\ resize_listener (activate w st) = resize_listener st.
Proof.
  unfold activate.
  destruct (truthy (classToRemove (options w)));
    destruct (is_function (callback (options w))); now split.
Qed.

Lemma listeners_deactivate st :
  scroll_listener (deactivate w st) = scroll_listener st
  /\ resize_listener (deactivate w st) = resize_listener st.
Proof.
  unfold deactivate.
  destruct (truthy (classToRemove (options w)));
    destruct (is_function (callback (options w))); now split.
Qed.

(** [check] is its three branches, selected by [transition]. *)
Lemma check_transition env st :
  check w env st =
  match transition w env st with
  | Activates =>
      if once (options w) && negb (repeat (options w))
      then detach (activate w st) else activate w st
  | Deactivates => deactivate w st
  | Idle => st
  end.
Proof.
  unfold check, transition.
  destruct (inView (options w) env && (negb (activated st) || repeat (options w)));
    [reflexivity |].
  now destruct (negb (inView (options w) env) && activated st && repeat (options w)).
Qed.

Lemma transition_Activates env st :
  transition w env st = Activates <->
  inView (options w) env = true
  /\ (activated st = false \/ repeat (options w) = true).
Proof.
  unfold transition.
  destruct (inView (options w) env), (activated st), (repeat (options w));
    simpl; split; try discriminate; try tauto;
    intros [H1 [H2 | H2]]; discriminate.
Qed.

Lemma transition_Deactivates env st :
  transition w env st = Deactivates <->
  inView (options w) env = false /\ activated st = true
  /\ repeat (options w) = true.
Proof.
  unfold transition.
  destruct (inView (options w) env), (activated st), (repeat (options w));
    simpl; split; try discriminate; try tauto;
    intros [H1 [H2 H3]]; discriminate.
Qed.

Lemma checks_app envs1 envs2 st :
  checks w (envs1 ++ envs2) st = checks w envs2 (checks w envs1 st).
Proof. unfold checks. apply fold_left_app. Qed.

Lemma transitions_app envs1 envs2 st :
  transitions w (envs1 ++ envs2) st
  = transitions w envs1 st ++ transitions w envs2 (checks w envs1 st).
Proof.
  revert st. induction envs1 as [| env rest IH]; intros st; simpl.
  - reflexivity.
  - now rewrite IH.
Qed.

End Fields.

(** ** Runs *)

Section Runs.

Variable w : Watcher.

Lemma deliver_detached evs st :
  scroll_listener st = false -> resize_listener st = false ->
  deliver w evs st = st.
Proof.
  intros Hs Hr. induction evs as [| [sig env] rest IH]; simpl.
  - reflexivity.
  - unfold dispatch at 1. simpl.
    destruct sig; simpl; rewrite ?Hs, ?Hr; exact IH.
Qed.

Lemma check_out_of_view_idle env st :
  inView (options w) env = false -> activated st = false ->
  check w env st = st.
Proof.
  intros Hv Ha. unfold check. rewrite Hv, Ha. reflexivity.
Qed.

Lemma checks_out_of_view_idle envs st :
  Forall (fun env => inView (options w) env = false) envs ->
  activated st = false ->
  checks w envs st = st.
Proof.
  intros Hall Ha. induction Hall as [| env rest Hv _ IH]; simpl.
  - reflexivity.
  - unfold checks in *. simpl. rewrite check_out_of_view_idle by assumption.
    exact IH.
Qed.

End Runs.

(** Construction, when the element exists, is the first check on a
    state with [activated] clear and both listeners registered. *)
Lemma que_with_element (document : Document) selector opts env st e :
  document selector = Found e ->
  que document selector opts env st
  = (Returned (Some {| options := merge_options opts; el := e |}),
     check {| options := merge_options opts; el := e |} env
       (set_listeners true true (set_activated false st))).
Proof.
  intros Hsome. unfold que. now rewrite Hsome.
Qed.

(** While both listeners stay registered, signals are checks. *)
Lemma dispatch_listening w ev st :
  scroll_listener st = true -> resize_listener st = true ->
  dispatch w ev st = check w (snd ev) st.
Proof.
  intros Hs Hr. unfold dispatch, listening.
  destruct (fst ev); now rewrite ?Hs, ?Hr.
Qed.

(** ** The in-view predicate *)

Lemma inView_iff o env :
  inView o env = true <->
  rect_top env < viewport_height env - offset o /\ rect_bottom env > offset o.
Proof.
  unfold inView. rewrite andb_true_iff, Z.ltb_lt, Z.gtb_gt. reflexivity.
Qed.

Lemma inView_false_iff o env :
  inView o env = false <->
  rect_bottom env <= offset o \/ rect_top env >= viewport_height env - offset o.
Proof.
  rewrite <- not_true_iff_false, inView_iff. lia.
Qed.

(** C1.  The predicate computed by [check] is
    [top < vh - offset && bottom > offset];  an element wholly above
    ([bottom <= offset]) or wholly below ([top >= vh - offset]) the
    shrunk viewport is not in view, and [check] then leaves a watcher
    that has not activated as it is;  and with [offset = 50], a
    viewport 800 high and the rectangle 700..750, [que] under the
    default flags applies ["que"], calls the callback once with
    ["add"], and removes both listeners. *)
Theorem check_inView_spec :
  (forall o env,
      inView o env = true <->
      rect_top env < viewport_height env - offset o
      /\ rect_bottom env > offset o)
  /\ (forall w env st,
        rect_bottom env <= offset (options w)
        \/ rect_top env >= viewport_height env - offset (options w) ->
        inView (options w) env = false
        /\ (activated st = false -> check w env st = st))
  /\ (forall (document : Document) e st ch,
        document ".sect-1" = Found e ->
        let opts := Some (mkOpts None None (Some 50) None None (Some CbFunction)) in
        let env := mkEnv 700 750 800 ch in
        let w := {| options := merge_options opts; el := e |} in
        let st' := snd (que document ".sect-1" opts env st) in
        inView (options w) env = true
        /\ fst (que document ".sect-1" opts env st) = Returned (Some w)
        /\ In "que" (classList st' e)
        /\ calls st' = calls st ++ [(e, Add)]
        /\ activated st' = true
        /\ scroll_listener st' = false
        /\ resize_listener st' = false).
Proof.
  split; [exact inView_iff |]. split.
  - intros w env st Hout.
    assert (Hv : inView (options w) env = false) by now apply inView_false_iff.
    split; [exact Hv |]. intros Ha. now apply check_out_of_view_idle.
  - intros document e st ch Hdoc. cbv zeta. unfold que. rewrite Hdoc.
    cbn [fst snd]. split; [reflexivity |]. split; [reflexivity |].
    unfold check. cbn. rewrite Nat.eqb_refl.
    repeat split; try reflexivity.
    apply In_classList_add. now left.
Qed.

Lemma check_inView_spec_witness :
  inView (with_flags true false) env_below = false
  /\ check (sample_watcher true false) env_below fresh = fresh.
Proof.
  destruct check_inView_spec as [_ [Hout _]].
  destruct (Hout (sample_watcher true false) env_below fresh) as [Hv Hidle].
  - right. vm_compute. discriminate.
  - split; [exact Hv | apply Hidle; reflexivity].
Defined.

(** C2.  With [once] set and [repeat] clear, the first check that
    finds the element in view (all earlier ones found it out of view
    and changed nothing) runs [activate] and then [detach];  both
    listeners are gone, and whatever scroll and resize signals follow
    leave the whole state as it is. *)
Theorem one_shot_detaches w st0 pre env evs :
  once (options w) = true -> repeat (options w) = false ->
  activated st0 = false ->
  Forall (fun e => inView (options w) e = false) pre ->
  inView (options w) env = true ->
  checks w pre st0 = st0
  /\ checks w (pre ++ [env]) st0 = detach (activate w st0)
  /\ scroll_listener (checks w (pre ++ [env]) st0) = false
  /\ resize_listener (checks w (pre ++ [env]) st0) = false
  /\ deliver w evs (checks w (pre ++ [env]) st0) = checks w (pre ++ [env]) st0.
Proof.
  intros Honce Hrep Ha Hpre Hv.
  assert (Hidle : checks w pre st0 = st0) by now apply checks_out_of_view_idle.
  assert (Hstep : checks w (pre ++ [env]) st0 = detach (activate w st0)).
  { rewrite checks_app, Hidle. unfold checks. simpl.
    unfold check. rewrite Hv, Ha, Honce, Hrep. reflexivity. }
  split; [exact Hidle |]. split; [exact Hstep |].
  rewrite Hstep. repeat split.
  now apply deliver_detached.
Qed.

Lemma one_shot_detaches_witness :
  checks (sample_watcher true false) [env_below; env_inside] fresh
  = detach (activate (sample_watcher true false) fresh)
  /\ deliver (sample_watcher true false)
       [(Scroll, env_below); (Resize, env_inside)]
       (checks (sample_watcher true false) [env_below; env_inside] fresh)
     = checks (sample_watcher true false) [env_below; env_inside] fresh.
Proof.
  destruct (one_shot_detaches (sample_watcher true false) fresh
              [env_below] env_inside
              [(Scroll, env_below); (Resize, env_inside)])
    as [_ [Hstep [_ [_ Hquiet]]]].
  - reflexivity.
  - reflexivity.
  - reflexivity.
  - constructor; [reflexivity | constructor].
  - reflexivity.
  - split; [exact Hstep | exact Hquiet].
Defined.

(** ** [once] and [repeat] together *)

(** C3, as stated, fails: with [once] and [repeat] both set, the first
    activation leaves both listeners registered;  and [repeat] is
    observable with [once] set, since without it the listeners go. *)
Lemma once_with_repeat_still_listens :
  once (with_flags true true) = true
  /\ repeat (with_flags true true) = true
  /\ inView (with_flags true true) env_inside = true
  /\ activated fresh = false
  /\ activated (check (sample_watcher true true) env_inside fresh) = true
  /\ scroll_listener (check (sample_watcher true true) env_inside fresh) = true
  /\ resize_listener (check (sample_watcher true true) env_inside fresh) = true
  /\ scroll_listener (check (sample_watcher true false) env_inside fresh) = false
  /\ resize_listener (check (sample_watcher true false) env_inside fresh) = false.
Proof. repeat split. Qed.

(** C3, amended.  With [once] and [repeat] both set, no check ever
    removes a listener (the guard is [once && !repeat]), and every
    check does exactly what it does with [once] clear:  it is [once]
    that has no effect when [repeat] is set. *)
Theorem repeat_overrides_once w env st :
  once (options w) = true -> repeat (options w) = true ->
  scroll_listener (check w env st) = scroll_listener st
  /\ resize_listener (check w env st) = resize_listener st
  /\ check w env st = check (with_once false w) env st.
Proof.
  intros Honce Hrep.
  assert (Hsame : check (with_once false w) env st =
                  match transition w env st with
                  | Activates => activate w st
                  | Deactivates => deactivate w st
                  | Idle => st
                  end).
  { unfold check, transition. cbv zeta.
    change (inView (options (with_once false w)) env)
      with (inView (options w) env).
    change (repeat (options (with_once false w))) with (repeat (options w)).
    change (once (options (with_once false w))) with false.
    change (activate (with_once false w) st) with (activate w st).
    change (deactivate (with_once false w) st) with (deactivate w st).
    destruct (inView (options w) env), (activated st), (repeat (options w));
      reflexivity. }
  rewrite Hsame, check_transition, Honce, Hrep. cbn [andb negb].
  destruct (transition w env st).
  - destruct (listeners_activate w st) as [Hs Hr]. now rewrite Hs, Hr.
  - destruct (listeners_deactivate w st) as [Hs Hr]. now rewrite Hs, Hr.
  - repeat split.
Qed.

Lemma repeat_overrides_once_witness :
  scroll_listener (check (sample_watcher true true) env_inside fresh) = true
  /\ check (sample_watcher true true) env_inside fresh
     = check (with_once false (sample_watcher true true)) env_inside fresh.
Proof.
  destruct (repeat_overrides_once (sample_watcher true true) env_inside fresh)
    as [Hs [_ Heq]].
  - reflexivity.
  - reflexivity.
  - split; [exact Hs | exact Heq].
Defined.

(** ** No element *)

(** C6, as stated, fails:  the empty string matches no element, and
    [que] on it does not return;  the [SyntaxError] of line 62 escapes
    it. *)
Lemma que_malformed_selector_throws :
  sample_document "" = SyntaxError
  /\ sample_document "" <> Null
  /\ fst (que sample_document "" None env_inside fresh) = Threw
  /\ fst (que sample_document "" None env_inside fresh) <> Returned None.
Proof. repeat split; discriminate. Qed.

(** Whatever the selector, a call that ends without a handle (thrown
    or [undefined]) leaves the state as it was. *)
Lemma que_without_handle (document : Document) selector opts env st :
  (forall e, document selector <> Found e) ->
  snd (que document selector opts env st) = st
  /\ (fst (que document selector opts env st) = Threw
      <-> document selector = SyntaxError).
Proof.
  intros Hnone. unfold que. destruct (document selector) as [| | e].
  - split; [reflexivity | now split].
  - split; [reflexivity | split; discriminate].
  - now destruct (Hnone e).
Qed.

(** C6, amended.  When the selector is well formed and resolves to no
    element ([querySelector] answers [null]), [que] returns
    [undefined] without throwing and the state is the one it was
    given:  no listener registered, no class list touched, no callback
    invoked. *)
Theorem que_without_element (document : Document) selector opts env st :
  document selector = Null ->
  que document selector opts env st = (Returned None, st).
Proof.
  intros Hnone. unfold que. now rewrite Hnone.
Qed.

Lemma que_without_element_witness :
  que sample_document ".missing" None env_inside fresh = (Returned None, fresh).
Proof.
  apply (que_without_element sample_document ".missing" None env_inside fresh).
  reflexivity.
Defined.

(** ** [detach] *)

Lemma iter_detach n st : Nat.iter (S n) detach st = detach st.
Proof.
  induction n as [| n IH].
  - reflexivity.
  - change (Nat.iter (S (S n)) detach st) with (detach (Nat.iter (S n) detach st)).
    now rewrite IH.
Qed.

(** C7.  However many times [detach] is called, the result is that
    of one call:  both listeners are unregistered, and [activated],
    every class list and the callback log are as before. *)
Theorem detach_idempotent st n :
  Nat.iter (S n) detach st = detach st
  /\ detach (detach st) = detach st
  /\ scroll_listener (detach st) = false
  /\ resize_listener (detach st) = false
  /\ activated (detach st) = activated st
  /\ classList (detach st) = classList st
  /\ calls (detach st) = calls st.
Proof.
  split; [apply iter_detach |]. repeat split.
Qed.

(** ** Alternating rectangles under [repeat] *)

Section Repeat.

Variable w : Watcher.
Hypothesis Hrepeat : repeat (options w) = true.

Lemma check_repeat_in_view env st :
  inView (options w) env = true -> check w env st = activate w st.
Proof.
  intros Hv. unfold check. rewrite Hv, Hrepeat.
  now rewrite orb_true_r, andb_false_r.
Qed.

Lemma check_repeat_leaving env st :
  inView (options w) env = false -> activated st = true ->
  check w env st = deactivate w st.
Proof.
  intros Hv Ha. unfold check. now rewrite Hv, Ha, Hrepeat.
Qed.

Lemma checks_toggle envs : forall b st,
  alternates (options w) b envs = true ->
  b = true \/ activated st = true ->
  checks w envs st = toggle w b (List.length envs) st.
Proof.
  induction envs as [| env rest IH]; intros b st Halt Hstart.
  - reflexivity.
  - cbn [alternates] in Halt. apply andb_true_iff in Halt as [Hv Hrest].
    apply eqb_prop in Hv.
    change (checks w (env :: rest) st) with (checks w rest (check w env st)).
    cbn [List.length toggle]. destruct b.
    + rewrite check_repeat_in_view by exact Hv.
      apply IH; [exact Hrest | right; reflexivity].
    + destruct Hstart as [Hb | Ha]; [discriminate |].
      rewrite check_repeat_leaving by assumption.
      apply IH; [exact Hrest | left; reflexivity].
Qed.

End Repeat.

Lemma calls_toggle w n : forall b st,
  calls (toggle w b n st)
  = calls st ++ (if is_function (callback (options w))
                 then map (pair (el w)) (toggle_actions b n) else []).
Proof.
  induction n as [| n IH]; intros b st; cbn [toggle toggle_actions].
  - destruct (is_function (callback (options w))); simpl; now rewrite app_nil_r.
  - rewrite IH. destruct b; cbn [negb];
      rewrite ?calls_activate, ?calls_deactivate; unfold logged;
      destruct (is_function (callback (options w)));
      cbn [map]; now rewrite <- app_assoc.
Qed.

(** C4, as stated, fails at a leading out-of-view check:  under
    [repeat], a watcher that has never activated does nothing on it
    (it is not [deactivate]: the out-of-view class is not added and
    the callback is not called). *)
Lemma repeat_leading_out_of_view_idle :
  repeat (with_flags false true) = true
  /\ alternates (with_flags false true) false [env_below; env_inside] = true
  /\ check (sample_watcher false true) env_below fresh = fresh
  /\ classList (check (sample_watcher false true) env_below fresh) 7%nat = []
  /\ classList (deactivate (sample_watcher false true) fresh) 7%nat = ["outview"]
  /\ calls (check (sample_watcher false true) env_below fresh) = []
  /\ calls (deactivate (sample_watcher false true) fresh) = [(7%nat, Remove)].
Proof. repeat split. Qed.

(** C4, amended.  Under [repeat], over checks whose rectangles
    alternate, beginning in view or on a watcher that is activated,
    the checks are [activate] and [deactivate] in turn (so the class to
    add is applied and the other removed, then the converse), and the
    callback, when callable, is called with ["add"] and ["remove"] in
    turn. *)
Theorem repeat_alternates w b envs st :
  repeat (options w) = true ->
  alternates (options w) b envs = true ->
  b = true \/ activated st = true ->
  checks w envs st = toggle w b (List.length envs) st
  /\ calls (checks w envs st)
     = calls st ++ (if is_function (callback (options w))
                    then map (pair (el w)) (toggle_actions b (List.length envs))
                    else []).
Proof.
  intros Hrep Halt Hstart.
  assert (H : checks w envs st = toggle w b (List.length envs) st)
    by now apply checks_toggle.
  split; [exact H |]. rewrite H. apply calls_toggle.
Qed.

Lemma repeat_alternates_witness :
  checks (sample_watcher false true) [env_inside; env_below; env_inside] fresh
  = activate (sample_watcher false true)
      (deactivate (sample_watcher false true)
         (activate (sample_watcher false true) fresh))
  /\ calls (checks (sample_watcher false true)
              [env_inside; env_below; env_inside] fresh)
     = [(7%nat, Add); (7%nat, Remove); (7%nat, Add)].
Proof.
  destruct (repeat_alternates (sample_watcher false true) true
              [env_inside; env_below; env_inside] fresh) as [Hrun Hcalls].
  - reflexivity.
  - reflexivity.
  - left. reflexivity.
  - split; [exact Hrun | exact Hcalls].
Defined.

(** ** The two classes *)

Section TwoClasses.

Variable o : Options.
Variable r : string.
Hypothesis Hconfigured : classToRemove o = Some r.
Hypothesis Hnonempty : r <> "".

Lemma truthy_configured : truthy (classToRemove o) = Some r.
Proof. apply truthy_Some. now split. Qed.

Lemma activate_classes_spec l :
  r <> classToAdd o ->
  In (classToAdd o) (activate_classes o l) /\ ~ In r (activate_classes o l).
Proof.
  intros Hdistinct. unfold activate_classes. rewrite truthy_configured.
  split.
  - apply In_classList_remove. split; [congruence |].
    apply In_classList_add. now left.
  - intros H. apply In_classList_remove in H. now destruct H.
Qed.

Lemma deactivate_classes_carries l : In r (deactivate_classes o l).
Proof.
  unfold deactivate_classes. rewrite truthy_configured.
  apply In_classList_add. now left.
Qed.

Lemma deactivate_classes_spec l :
  r <> classToAdd o ->
  In r (deactivate_classes o l) /\ ~ In (classToAdd o) (deactivate_classes o l).
Proof.
  intros Hdistinct. split; [apply deactivate_classes_carries |].
  unfold deactivate_classes. rewrite truthy_configured.
  intros H. apply In_classList_add in H. destruct H as [H | H].
  - congruence.
  - apply In_classList_remove in H. now destruct H.
Qed.

End TwoClasses.

(** C5, as stated, fails:  an element that carries both classes when
    a check finds it out of view carries both afterwards. *)
Lemma both_classes_survive_check :
  classToRemove (with_flags true false) = Some "outview"
  /\ inView (with_flags true false) env_below = false
  /\ classList (check (sample_watcher true false) env_below fresh_with_both) 7%nat
     = ["inview"; "outview"]
  /\ has_both (with_flags true false) "outview"
       (classList (check (sample_watcher true false) env_below fresh_with_both)
          7%nat).
Proof.
  repeat split.
  - simpl. now left.
  - simpl. right. now left.
Qed.

(** The two names must also differ:  with one name for both, a
    deactivation leaves it on the element. *)
Lemma same_name_for_both_classes :
  let w := {| options := mkOptions "x" (Some "x") 0 false true CbNull;
              el := 7%nat |} in
  classList (checks w [env_inside; env_below] fresh) 7%nat = ["x"].
Proof. reflexivity. Qed.

(** C5, amended.  When [classToRemove] is configured (not empty) and
    differs from [classToAdd], a check never brings the two classes
    together:  if the element does not carry both before, it does not
    after;  a check that activates leaves [classToAdd] on and
    [classToRemove] off, and one that deactivates the converse. *)
Theorem classes_stay_exclusive w r env st :
  classToRemove (options w) = Some r -> r <> "" ->
  r <> classToAdd (options w) ->
  ~ has_both (options w) r (classList st (el w)) ->
  ~ has_both (options w) r (classList (check w env st) (el w))
  /\ (transition w env st = Activates ->
      In (classToAdd (options w)) (classList (check w env st) (el w))
      /\ ~ In r (classList (check w env st) (el w)))
  /\ (transition w env st = Deactivates ->
      In r (classList (check w env st) (el w))
      /\ ~ In (classToAdd (options w)) (classList (check w env st) (el w))).
Proof.
  intros Hcfg Hne Hdistinct Hbefore.
  assert (Hact : classList (if once (options w) && negb (repeat (options w))
                            then detach (activate w st) else activate w st) (el w)
                 = activate_classes (options w) (classList st (el w))).
  { destruct (once (options w) && negb (repeat (options w)));
      [change (classList (detach (activate w st)) (el w))
         with (classList (activate w st) (el w)) |];
      apply classList_activate. }
  rewrite check_transition.
  destruct (transition w env st).
  - rewrite Hact.
    destruct (activate_classes_spec (options w) r Hcfg Hne
                (classList st (el w)) Hdistinct) as [Hin Hout].
    split; [| split; [intros _; now split | discriminate]].
    intros [_ Hr]. now apply Hout.
  - rewrite classList_deactivate.
    destruct (deactivate_classes_spec (options w) r Hcfg Hne
                (classList st (el w)) Hdistinct) as [Hin Hout].
    split; [| split; [discriminate | intros _; now split]].
    intros [Ha _]. now apply Hout.
  - split; [exact Hbefore | split; discriminate].
Qed.

Lemma classes_stay_exclusive_witness :
  ~ has_both (with_flags true false) "outview"
      (classList (check (sample_watcher true false) env_inside fresh) 7%nat)
  /\ In "inview"
       (classList (check (sample_watcher true false) env_inside fresh) 7%nat).
Proof.
  destruct (classes_stay_exclusive (sample_watcher true false) "outview"
              env_inside fresh) as [Hexcl [Hact _]].
  - reflexivity.
  - discriminate.
  - discriminate.
  - intros [[] _].
  - split; [exact Hexcl | apply Hact; reflexivity].
Defined.

(** ** Out of view *)

(** C8, as stated, fails:  a check that finds the element out of
    view leaves a watcher that has not activated alone, and, without
    [repeat], an activated one too;  the element does not carry
    [classToRemove] afterwards. *)
Lemma out_of_view_without_class :
  classToRemove (with_flags false false) = Some "outview"
  /\ inView (with_flags false false) env_below = false
  /\ classList (check (sample_watcher false false) env_below fresh) 7%nat = []
  /\ classList (checks (sample_watcher false false) [env_inside; env_below] fresh)
       7%nat = ["inview"].
Proof. repeat split. Qed.

(** C8, amended.  When [classToRemove] is configured (not empty), a
    check that finds the element out of view adds it exactly when the
    watcher is activated and [repeat] is set (the check is then
    [deactivate]);  every other out-of-view check changes nothing. *)
Theorem out_of_view_class w r env st :
  classToRemove (options w) = Some r -> r <> "" ->
  inView (options w) env = false ->
  (activated st = true -> repeat (options w) = true ->
   check w env st = deactivate w st
   /\ In r (classList (check w env st) (el w)))
  /\ (activated st = false \/ repeat (options w) = false ->
      check w env st = st).
Proof.
  intros Hcfg Hne Hv. split.
  - intros Ha Hrep.
    assert (H : check w env st = deactivate w st)
      by now apply check_repeat_leaving.
    split; [exact H |]. rewrite H, classList_deactivate.
    now apply deactivate_classes_carries.
  - intros Hidle. unfold check. rewrite Hv. cbn [andb negb].
    destruct Hidle as [H | H]; rewrite H; [reflexivity |].
    now rewrite andb_false_r.
Qed.

Lemma out_of_view_class_witness :
  In "outview"
    (classList (check (sample_watcher false true) env_below
                  (activate (sample_watcher false true) fresh)) 7%nat)
  /\ check (sample_watcher false false) env_below fresh = fresh.
Proof.
  destruct (out_of_view_class (sample_watcher false true) "outview" env_below
              (activate (sample_watcher false true) fresh)) as [Hadd _];
    [reflexivity | discriminate | reflexivity |].
  destruct (out_of_view_class (sample_watcher false false) "outview" env_below
              fresh) as [_ Hidle];
    [reflexivity | discriminate | reflexivity |].
  split.
  - now apply Hadd.
  - apply Hidle. now left.
Defined.

(** ** Order of activations and deactivations *)

Section Order.

Variable w : Watcher.

Lemma calls_check env st :
  calls (check w env st)
  = calls st ++ match transition w env st with
                | Activates => logged w Add
                | Deactivates => logged w Remove
                | Idle => []
                end.
Proof.
  rewrite check_transition. destruct (transition w env st).
  - destruct (once (options w) && negb (repeat (options w)));
      [change (calls (detach (activate w st))) with (calls (activate w st)) |];
      apply calls_activate.
  - apply calls_deactivate.
  - now rewrite app_nil_r.
Qed.

Lemma transition_not_activated env st :
  activated st = false ->
  transition w env st = Activates
  \/ (transition w env st = Idle /\ check w env st = st).
Proof.
  intros Ha. rewrite check_transition. unfold transition. rewrite Ha.
  destruct (inView (options w) env); cbn; [now left | now right].
Qed.

(** The log only grows, and stays put when the callback is not callable. *)
Lemma calls_checks_grow envs : forall st,
  exists new,
    calls (checks w envs st) = calls st ++ new
    /\ (is_function (callback (options w)) = false -> new = []).
Proof.
  induction envs as [| env rest IH]; intros st.
  - exists []. split; [now rewrite app_nil_r | reflexivity].
  - change (checks w (env :: rest) st) with (checks w rest (check w env st)).
    destruct (IH (check w env st)) as [new [Hnew Hsilent]].
    rewrite Hnew, calls_check, <- app_assoc. eexists. split; [reflexivity |].
    intros Hnf. rewrite (Hsilent Hnf). unfold logged. rewrite Hnf.
    now destruct (transition w env st).
Qed.

Lemma first_call_is_add envs : forall st,
  activated st = false ->
  exists new,
    calls (checks w envs st) = calls st ++ new
    /\ (new = [] \/ exists rest, new = (el w, Add) :: rest).
Proof.
  induction envs as [| env rest IH]; intros st Ha.
  - exists []. split; [now rewrite app_nil_r | now left].
  - change (checks w (env :: rest) st) with (checks w rest (check w env st)).
    destruct (transition_not_activated env st Ha) as [Hact | [Hidle Hsame]].
    + destruct (calls_checks_grow rest (check w env st)) as [new [Hnew Hsilent]].
      rewrite Hnew, calls_check, Hact, <- app_assoc.
      eexists. split; [reflexivity |]. unfold logged.
      destruct (is_function (callback (options w))).
      * right. eexists. reflexivity.
      * left. now rewrite Hsilent.
    + rewrite Hsame. now apply IH.
Qed.

Lemma deactivation_follows_activation envs : forall st before after,
  activated st = false ->
  transitions w envs st = before ++ Deactivates :: after ->
  In Activates before.
Proof.
  induction envs as [| env rest IH]; intros st before after Ha Hsplit.
  - now destruct before.
  - cbn [transitions] in Hsplit.
    destruct (transition_not_activated env st Ha) as [Hact | [Hidle Hsame]].
    + rewrite Hact in Hsplit. destruct before as [| t before'].
      * discriminate.
      * inversion Hsplit. now left.
    + rewrite Hidle, Hsame in Hsplit. destruct before as [| t before'].
      * discriminate.
      * inversion Hsplit as [[Ht Hrest]]. right.
        now apply (IH st before' after).
Qed.

End Order.

(** C9.  From a watcher that has not activated (as [que] creates
    it), over any sequence of checks:  the callback log grows by
    entries of which the first, if any, is ["add"];  and a check that
    deactivates comes after one that activated. *)
Theorem add_comes_first w envs st :
  activated st = false ->
  (exists new,
      calls (checks w envs st) = calls st ++ new
      /\ (new = [] \/ exists rest, new = (el w, Add) :: rest))
  /\ (forall before after,
        transitions w envs st = before ++ Deactivates :: after ->
        In Activates before).
Proof.
  intros Ha. split.
  - now apply first_call_is_add.
  - intros before after. now apply deactivation_follows_activation.
Qed.

Lemma add_comes_first_witness :
  (exists new,
      calls (checks (sample_watcher false true)
               [env_below; env_inside; env_below] fresh)
      = calls fresh ++ new
      /\ (new = [] \/ exists rest, new = (7%nat, Add) :: rest))
  /\ In Activates [Idle; Activates].
Proof.
  destruct (add_comes_first (sample_watcher false true)
              [env_below; env_inside; env_below] fresh) as [Hlog Horder].
  - reflexivity.
  - split; [exact Hlog |].
    apply (Horder [Idle; Activates] []). reflexivity.
Defined.

(** ** Without [repeat] *)

Section NoRepeat.

Variable w : Watcher.
Hypothesis Hno_repeat : repeat (options w) = false.

Lemma check_activated_idle env st :
  activated st = true ->
  transition w env st = Idle /\ check w env st = st.
Proof.
  intros Ha. rewrite check_transition. unfold transition.
  rewrite Ha, Hno_repeat. cbn [negb orb].
  rewrite !andb_false_r. now split.
Qed.

Lemma checks_activated_idle envs st :
  activated st = true -> checks w envs st = st.
Proof.
  intros Ha. induction envs as [| env rest IH].
  - reflexivity.
  - change (checks w (env :: rest) st) with (checks w rest (check w env st)).
    destruct (check_activated_idle env st Ha) as [_ Hsame]. now rewrite Hsame.
Qed.

Lemma transitions_activated_idle envs st :
  activated st = true -> Forall (eq Idle) (transitions w envs st).
Proof.
  intros Ha. induction envs as [| env rest IH]; cbn [transitions].
  - constructor.
  - destruct (check_activated_idle env st Ha) as [Hidle Hsame].
    rewrite Hidle, Hsame. now constructor.
Qed.

Lemma activations_idle ts : Forall (eq Idle) ts -> activations ts = 0%nat.
Proof.
  unfold activations. induction 1 as [| t ts Ht _ IH]; [reflexivity |].
  subst t. exact IH.
Qed.

Lemma never_deactivates env st : transition w env st <> Deactivates.
Proof.
  intros H. apply transition_Deactivates in H. destruct H as [_ [_ H]].
  congruence.
Qed.

Lemma activated_after_activation env st :
  transition w env st = Activates -> activated (check w env st) = true.
Proof.
  intros H. rewrite check_transition, H.
  now destruct (once (options w) && negb (repeat (options w))).
Qed.

Lemma at_most_one_activation envs : forall st,
  (activations (transitions w envs st) <= 1)%nat.
Proof.
  induction envs as [| env rest IH]; intros st; cbn [transitions].
  - unfold activations. simpl. lia.
  - destruct (transition w env st) eqn:Ht.
    + apply activated_after_activation in Ht.
      unfold activations. cbn [filter is_activation List.length].
      change (List.length (filter is_activation
                (transitions w rest (check w env st))))
        with (activations (transitions w rest (check w env st))).
      rewrite activations_idle; [lia |].
      now apply transitions_activated_idle.
    + now apply never_deactivates in Ht.
    + unfold activations in *. cbn [filter is_activation]. apply IH.
Qed.

Lemma check_keeps_listeners env st :
  once (options w) = false ->
  scroll_listener (check w env st) = scroll_listener st
  /\ resize_listener (check w env st) = resize_listener st.
Proof.
  intros Honce. rewrite check_transition, Honce. cbn [andb].
  destruct (transition w env st).
  - apply listeners_activate.
  - apply listeners_deactivate.
  - now split.
Qed.

Lemma checks_keep_listeners envs : forall st,
  once (options w) = false ->
  scroll_listener (checks w envs st) = scroll_listener st
  /\ resize_listener (checks w envs st) = resize_listener st.
Proof.
  induction envs as [| env rest IH]; intros st Honce.
  - now split.
  - change (checks w (env :: rest) st) with (checks w rest (check w env st)).
    destruct (IH (check w env st) Honce) as [Hs Hr].
    destruct (check_keeps_listeners env st Honce) as [Hs' Hr'].
    split; congruence.
Qed.

Lemma no_deactivation envs : forall st,
  ~ In Deactivates (transitions w envs st).
Proof.
  induction envs as [| env rest IH]; intros st; cbn [transitions].
  - intros [].
  - intros [H | H].
    + now apply never_deactivates in H.
    + now apply IH in H.
Qed.

End NoRepeat.

(** C10.  Without [repeat], whatever [once] is:  over any sequence
    of checks at most one activates and none deactivates;  once
    [activated] holds, every check, and so every sequence of checks,
    leaves the whole state (class lists, callback log, listeners) as it
    is;  and with [once] clear the listeners stay registered all
    along. *)
Theorem no_repeat_activates_once w envs st :
  repeat (options w) = false ->
  (activations (transitions w envs st) <= 1)%nat
  /\ ~ In Deactivates (transitions w envs st)
  /\ (activated st = true ->
      checks w envs st = st /\ Forall (eq Idle) (transitions w envs st))
  /\ (once (options w) = false ->
      scroll_listener (checks w envs st) = scroll_listener st
      /\ resize_listener (checks w envs st) = resize_listener st).
Proof.
  intros Hrep. split; [now apply at_most_one_activation |].
  split; [now apply no_deactivation |]. split.
  - intros Ha. split.
    + now apply checks_activated_idle.
    + now apply transitions_activated_idle.
  - now apply checks_keep_listeners.
Qed.

Lemma no_repeat_activates_once_witness :
  (activations
     (transitions (sample_watcher false false)
        [env_below; env_inside; env_below; env_inside] fresh) <= 1)%nat
  /\ checks (sample_watcher false false) [env_below; env_inside]
       (activate (sample_watcher false false) fresh)
     = activate (sample_watcher false false) fresh.
Proof.
  destruct (no_repeat_activates_once (sample_watcher false false)
              [env_below; env_inside; env_below; env_inside] fresh)
    as [Hone _]; [reflexivity |].
  destruct (no_repeat_activates_once (sample_watcher false false)
              [env_below; env_inside]
              (activate (sample_watcher false false) fresh))
    as [_ [_ [Hquiet _]]]; [reflexivity |].
  split; [exact Hone | now apply Hquiet].
Defined.

(** * Further properties of the code *)

(** ** The margin *)

(** A larger [offset] only shrinks what counts as in view (line 88). *)
Theorem inView_offset_monotone o1 o2 env :
  offset o1 <= offset o2 ->
  inView o2 env = true -> inView o1 env = true.
Proof.
  intros Hle Hv. apply inView_iff in Hv. apply inView_iff. lia.
Qed.

Lemma inView_offset_monotone_witness :
  inView defaults env_inside = true.
Proof.
  apply (inView_offset_monotone defaults (with_flags true false) env_inside).
  - vm_compute. discriminate.
  - reflexivity.
Defined.

Lemma inView_needs_room o env :
  inView o env = true ->
  rect_bottom env - rect_top env > 2 * offset o - viewport_height env.
Proof.
  intros Hv. apply inView_iff in Hv. lia.
Qed.

(** When the two margins meet or cross, a rectangle no taller than
    their overlap is never in view, and a watcher that has not
    activated never does (lines 88-97). *)
Theorem margins_too_wide w envs st :
  Forall (fun env =>
            rect_bottom env - rect_top env
            <= 2 * offset (options w) - viewport_height env) envs ->
  activated st = false ->
  Forall (fun env => inView (options w) env = false) envs
  /\ checks w envs st = st.
Proof.
  intros Hnarrow Ha.
  assert (Hout : Forall (fun env => inView (options w) env = false) envs).
  { apply Forall_impl with (2 := Hnarrow). intros env Hroom.
    destruct (inView (options w) env) eqn:Hv; [| reflexivity].
    apply inView_needs_room in Hv. lia. }
  split; [exact Hout |]. now apply checks_out_of_view_idle.
Qed.

Lemma margins_too_wide_witness :
  checks {| options := wide_margin; el := 7%nat |} [env_thin; env_thin] fresh
  = fresh.
Proof.
  apply (margins_too_wide {| options := wide_margin; el := 7%nat |}
           [env_thin; env_thin] fresh).
  - repeat constructor; vm_compute; discriminate.
  - reflexivity.
Defined.

(** ** The flag [activated] *)

Lemma activated_check w env st :
  activated (check w env st)
  = inView (options w) env || (activated st && negb (repeat (options w))).
Proof.
  rewrite check_transition. unfold transition.
  destruct (activated st) eqn:Ha;
    destruct (inView (options w) env), (repeat (options w)),
      (once (options w)); cbn; solve [reflexivity | exact Ha].
Qed.

(** After a check the watcher is activated exactly when the element
    is in view, or it was activated already and [repeat] is off;  so
    under [repeat] the flag is the last in-view verdict, over any run
    (lines 90-97). *)
Theorem activated_after_check w env envs st :
  activated (check w env st)
  = inView (options w) env || (activated st && negb (repeat (options w)))
  /\ (repeat (options w) = true ->
      activated (checks w (envs ++ [env]) st) = inView (options w) env).
Proof.
  split; [apply activated_check |].
  intros Hrep. rewrite checks_app.
  change (checks w [env] (checks w envs st))
    with (check w env (checks w envs st)).
  rewrite activated_check, Hrep. cbn [negb].
  now rewrite andb_false_r, orb_false_r.
Qed.

Lemma activated_after_check_witness :
  activated (checks (sample_watcher false true)
               ([env_inside; env_inside] ++ [env_below]) fresh)
  = false.
Proof.
  apply (activated_after_check (sample_watcher false true) env_below
           [env_inside; env_inside] fresh).
  reflexivity.
Defined.

(** ** What a watcher leaves alone *)

Section Frame.

Variable w : Watcher.

Lemma classList_check_other env st e :
  e <> el w -> classList (check w env st) e = classList st e.
Proof.
  intros Hne. rewrite check_transition. destruct (transition w env st).
  - destruct (once (options w) && negb (repeat (options w)));
      [change (classList (detach (activate w st)) e)
         with (classList (activate w st) e) |];
      now apply classList_activate_other.
  - now apply classList_deactivate_other.
  - reflexivity.
Qed.

Lemma classList_checks_other envs e : forall st,
  e <> el w -> classList (checks w envs st) e = classList st e.
Proof.
  induction envs as [| env rest IH]; intros st Hne.
  - reflexivity.
  - change (checks w (env :: rest) st) with (checks w rest (check w env st)).
    rewrite IH by exact Hne. now apply classList_check_other.
Qed.

Lemma classList_deliver_other evs e : forall st,
  e <> el w -> classList (deliver w evs st) e = classList st e.
Proof.
  induction evs as [| ev rest IH]; intros st Hne.
  - reflexivity.
  - change (deliver w (ev :: rest) st) with (deliver w rest (dispatch w ev st)).
    rewrite IH by exact Hne. unfold dispatch.
    destruct (listening (fst ev) st); [| reflexivity].
    now apply classList_check_other.
Qed.

Lemma calls_check_silent env st :
  is_function (callback (options w)) = false ->
  calls (check w env st) = calls st.
Proof.
  intros Hnf. rewrite calls_check. unfold logged. rewrite Hnf.
  destruct (transition w env st); apply app_nil_r.
Qed.

Lemma calls_deliver_silent evs : forall st,
  is_function (callback (options w)) = false ->
  calls (deliver w evs st) = calls st.
Proof.
  induction evs as [| ev rest IH]; intros st Hnf.
  - reflexivity.
  - change (deliver w (ev :: rest) st) with (deliver w rest (dispatch w ev st)).
    rewrite IH by exact Hnf. unfold dispatch.
    destruct (listening (fst ev) st); [| reflexivity].
    now apply calls_check_silent.
Qed.

End Frame.

(** Only the watched element's classes are ever touched:  through
    construction and any signals after it, every other element keeps
    its class list (lines 62-107). *)
Theorem other_elements_untouched (document : Document) selector opts env st
    w st1 evs e :
  que document selector opts env st = (Returned (Some w), st1) ->
  e <> el w ->
  classList st1 e = classList st e
  /\ classList (deliver w evs st1) e = classList st e.
Proof.
  intros Hque Hne. unfold que in Hque.
  destruct (document selector) as [| | e0]; [discriminate | discriminate |].
  inversion Hque as [[Hw Hst]]. subst w. clear Hque Hst.
  set (w0 := {| options := merge_options opts; el := e0 |}) in *.
  assert (Hfirst : classList
                     (check w0 env (set_listeners true true (set_activated false st))) e
                   = classList st e)
    by now rewrite classList_check_other.
  split; [exact Hfirst |].
  now rewrite classList_deliver_other.
Qed.

Lemma other_elements_untouched_witness :
  classList
    (deliver (sample_watcher false true) [(Scroll, env_below)]
       (snd (que sample_document ".sect-1"
               (Some (mkOpts (Some "inview") (Some (Some "outview")) (Some 50)
                        (Some false) (Some true) (Some CbFunction)))
               env_inside fresh))) 3%nat
  = [].
Proof.
  apply (other_elements_untouched sample_document ".sect-1"
           (Some (mkOpts (Some "inview") (Some (Some "outview")) (Some 50)
                    (Some false) (Some true) (Some CbFunction)))
           env_inside fresh (sample_watcher false true) _
           [(Scroll, env_below)] 3%nat).
  - reflexivity.
  - discriminate.
Defined.

(** A callback that is not a function is never called:  through any
    checks and any signals the log stays as it was (lines 70, 79). *)
Theorem no_function_no_call w envs evs st :
  is_function (callback (options w)) = false ->
  calls (checks w envs st) = calls st
  /\ calls (deliver w evs st) = calls st.
Proof.
  intros Hnf. split.
  - destruct (calls_checks_grow w envs st) as [new [Hnew Hsilent]].
    now rewrite Hnew, (Hsilent Hnf), app_nil_r.
  - now apply calls_deliver_silent.
Qed.

Lemma no_function_no_call_witness :
  transitions uncallable_watcher [env_inside; env_below] fresh
  = [Activates; Deactivates]
  /\ classList (checks uncallable_watcher [env_inside; env_below] fresh) 7%nat
     = ["outview"]
  /\ calls (checks uncallable_watcher [env_inside; env_below] fresh) = []
  /\ classList
       (deliver uncallable_watcher
          [(Scroll, env_inside); (Resize, env_below)] fresh) 7%nat
     = ["outview"]
  /\ calls (deliver uncallable_watcher
              [(Scroll, env_inside); (Resize, env_below)] fresh) = [].
Proof.
  destruct (no_function_no_call uncallable_watcher [env_inside; env_below]
              [(Scroll, env_inside); (Resize, env_below)] fresh)
    as [Hchecks Hdeliver]; [reflexivity |].
  repeat split; assumption.
Defined.

(** ** The callback log *)

Section Log.

Variable w : Watcher.

Lemma emitted_silent envs : forall st,
  is_function (callback (options w)) = false -> emitted w envs st = [].
Proof.
  induction envs as [| env rest IH]; intros st Hnf; cbn [emitted].
  - reflexivity.
  - now rewrite Hnf, IH.
Qed.

Lemma calls_emitted envs : forall st,
  calls (checks w envs st) = calls st ++ map (pair (el w)) (emitted w envs st).
Proof.
  induction envs as [| env rest IH]; intros st.
  - cbn. now rewrite app_nil_r.
  - change (checks w (env :: rest) st) with (checks w rest (check w env st)).
    cbn [emitted]. rewrite IH, calls_check, map_app, app_assoc.
    f_equal. f_equal. unfold logged.
    destruct (is_function (callback (options w)));
      now destruct (transition w env st).
Qed.

Lemma sequenced_emitted envs : forall st,
  sequenced (activated st) (emitted w envs st) = true.
Proof.
  induction envs as [| env rest IH]; intros st; cbn [emitted].
  - reflexivity.
  - destruct (is_function (callback (options w))) eqn:Hf.
    + specialize (IH (check w env st)).
      destruct (transition w env st) eqn:Ht; cbn [app].
      * cbn [sequenced].
        now rewrite (activated_check w env st),
          (proj1 (proj1 (transition_Activates w env st) Ht)) in IH.
      * apply transition_Deactivates in Ht as [Hv [Ha Hrep]].
        rewrite activated_check, Hv, Ha, Hrep in IH.
        cbn [sequenced]. rewrite Ha. exact IH.
      * assert (Hsame : check w env st = st)
          by now rewrite check_transition, Ht.
        rewrite Hsame in IH |- *. exact IH.
    + rewrite emitted_silent by exact Hf. reflexivity.
Qed.

End Log.

(** Along any run of checks the callback is called with the watched
    element only, and never with ["remove"] unless its previous call
    was an ["add"] (or the run began on an activated watcher)
    (lines 70-73, 79-82, 90-97). *)
Theorem callbacks_well_sequenced w envs st :
  calls (checks w envs st) = calls st ++ map (pair (el w)) (emitted w envs st)
  /\ sequenced (activated st) (emitted w envs st) = true.
Proof.
  split; [apply calls_emitted | apply sequenced_emitted].
Qed.

(** Without [repeat] the callback is called at most once over any run
    of checks, and then with ["add"] (lines 90-97). *)
Theorem no_repeat_single_call w envs st :
  repeat (options w) = false ->
  calls (checks w envs st) = calls st
  \/ calls (checks w envs st) = calls st ++ [(el w, Add)].
Proof.
  intros Hrep. revert st. induction envs as [| env rest IH]; intros st.
  - now left.
  - change (checks w (env :: rest) st) with (checks w rest (check w env st)).
    destruct (transition w env st) eqn:Ht.
    + rewrite (checks_activated_idle w Hrep rest (check w env st))
        by now apply activated_after_activation.
      rewrite calls_check, Ht. unfold logged.
      destruct (is_function (callback (options w)));
        [now right | left; apply app_nil_r].
    + now apply never_deactivates in Ht.
    + assert (Hsame : check w env st = st)
        by now rewrite check_transition, Ht.
      rewrite Hsame. apply IH.
Qed.

Lemma no_repeat_single_call_witness :
  calls (checks (sample_watcher false false)
           [env_inside; env_below; env_inside] fresh) = []
  \/ calls (checks (sample_watcher false false)
              [env_inside; env_below; env_inside] fresh)
     = [] ++ [(7%nat, Add)].
Proof.
  apply (no_repeat_single_call (sample_watcher false false)
           [env_inside; env_below; env_inside] fresh).
  reflexivity.
Defined.

(** ** Staying in view, staying out of view, under [repeat] *)

Lemma classList_remove_add c l :
  classList_remove c (classList_add c l) = classList_remove c l.
Proof.
  unfold classList_add. destruct (contains c l); [reflexivity |].
  unfold classList_remove. rewrite filter_app. cbn [filter].
  rewrite String.eqb_refl. cbn. apply app_nil_r.
Qed.

Lemma classList_remove_idem c l :
  classList_remove c (classList_remove c l) = classList_remove c l.
Proof.
  unfold classList_remove. induction l as [| t l IH]; cbn [filter].
  - reflexivity.
  - destruct (negb (String.eqb c t)) eqn:E; cbn [filter].
    + now rewrite E, IH.
    + exact IH.
Qed.

Lemma classList_add_present c l : In c l -> classList_add c l = l.
Proof.
  intros Hin. unfold classList_add.
  now rewrite (proj2 (contains_In c l) Hin).
Qed.

Lemma activate_classes_idem o l :
  activate_classes o (activate_classes o l) = activate_classes o l.
Proof.
  unfold activate_classes. destruct (truthy (classToRemove o)) as [r |].
  - destruct (String.eqb r (classToAdd o)) eqn:E.
    + apply String.eqb_eq in E. subst r.
      now rewrite !classList_remove_add, classList_remove_idem.
    + apply String.eqb_neq in E. rewrite classList_add_present.
      * apply classList_remove_idem.
      * apply In_classList_remove. split; [congruence |].
        apply In_classList_add. now left.
  - apply classList_add_present. apply In_classList_add. now left.
Qed.

Section Staying.

Variable w : Watcher.
Hypothesis Hrepeat : repeat (options w) = true.

Lemma stay_in_view envs : forall st,
  Forall (fun env => inView (options w) env = true) envs ->
  envs <> [] ->
  classList (checks w envs st) (el w)
  = activate_classes (options w) (classList st (el w))
  /\ activated (checks w envs st) = true.
Proof.
  induction envs as [| env rest IH]; intros st Hall Hne; [congruence |].
  inversion Hall as [| env' rest' Hv Hrest]; subst.
  change (checks w (env :: rest) st) with (checks w rest (check w env st)).
  rewrite (check_repeat_in_view w Hrepeat env st Hv).
  destruct rest as [| env2 rest2].
  - split; [apply classList_activate | reflexivity].
  - destruct (IH (activate w st) Hrest) as [Hcl Ha]; [discriminate |].
    split; [| exact Ha].
    now rewrite Hcl, classList_activate, activate_classes_idem.
Qed.

Lemma calls_stay_in_view envs : forall st,
  Forall (fun env => inView (options w) env = true) envs ->
  calls (checks w envs st)
  = calls st ++ (if is_function (callback (options w))
                 then List.repeat (el w, Add) (List.length envs) else []).
Proof.
  induction envs as [| env rest IH]; intros st Hall.
  - cbn. destruct (is_function (callback (options w))); now rewrite app_nil_r.
  - inversion Hall as [| env' rest' Hv Hrest]; subst.
    change (checks w (env :: rest) st) with (checks w rest (check w env st)).
    rewrite (check_repeat_in_view w Hrepeat env st Hv), (IH _ Hrest),
      calls_activate, <- app_assoc.
    unfold logged. now destruct (is_function (callback (options w))).
Qed.

Lemma stay_out_of_view env envs st :
  Forall (fun env => inView (options w) env = false) (env :: envs) ->
  activated st = true ->
  checks w (env :: envs) st = deactivate w st.
Proof.
  intros Hall Ha. inversion Hall as [| env' rest' Hv Hrest]; subst.
  change (checks w (env :: envs) st) with (checks w envs (check w env st)).
  rewrite (check_repeat_leaving w Hrepeat env st Hv Ha).
  now apply checks_out_of_view_idle.
Qed.

End Staying.

(** Under [repeat], every check that finds the element in view runs
    [activate] again:  over a run of in-view checks the class list is
    what the first one made of it, but the callback is called with
    ["add"] once per check (lines 90-91). *)
Theorem repeat_calls_on_every_in_view_check w envs st :
  repeat (options w) = true ->
  Forall (fun env => inView (options w) env = true) envs ->
  envs <> [] ->
  classList (checks w envs st) (el w)
  = activate_classes (options w) (classList st (el w))
  /\ activated (checks w envs st) = true
  /\ calls (checks w envs st)
     = calls st ++ (if is_function (callback (options w))
                    then List.repeat (el w, Add) (List.length envs) else []).
Proof.
  intros Hrep Hall Hne.
  destruct (stay_in_view w Hrep envs st Hall Hne) as [Hcl Ha].
  split; [exact Hcl |]. split; [exact Ha |].
  now apply calls_stay_in_view.
Qed.

Lemma repeat_calls_on_every_in_view_check_witness :
  classList (checks (sample_watcher false true)
               [env_inside; env_inside; env_inside] fresh) 7%nat
  = ["inview"]
  /\ calls (checks (sample_watcher false true)
              [env_inside; env_inside; env_inside] fresh)
     = [(7%nat, Add); (7%nat, Add); (7%nat, Add)].
Proof.
  destruct (repeat_calls_on_every_in_view_check (sample_watcher false true)
              [env_inside; env_inside; env_inside] fresh)
    as [Hcl [_ Hcalls]].
  - reflexivity.
  - repeat constructor.
  - discriminate.
  - split; [exact Hcl | exact Hcalls].
Defined.

(** Under [repeat], a run of out-of-view checks on an activated
    watcher is one [deactivate]:  the first check deactivates and the
    rest do nothing, so the callback is called with ["remove"] once
    (lines 95-96). *)
Theorem repeat_deactivates_once w env envs st :
  repeat (options w) = true ->
  Forall (fun env => inView (options w) env = false) (env :: envs) ->
  activated st = true ->
  checks w (env :: envs) st = deactivate w st
  /\ calls (checks w (env :: envs) st) = calls st ++ logged w Remove.
Proof.
  intros Hrep Hall Ha.
  assert (H : checks w (env :: envs) st = deactivate w st)
    by now apply stay_out_of_view.
  split; [exact H |]. rewrite H. apply calls_deactivate.
Qed.

Lemma repeat_deactivates_once_witness :
  calls (checks (sample_watcher false true) [env_below; env_below; env_below]
           (activate (sample_watcher false true) fresh))
  = [(7%nat, Add); (7%nat, Remove)].
Proof.
  destruct (repeat_deactivates_once (sample_watcher false true) env_below
              [env_below; env_below]
              (activate (sample_watcher false true) fresh)) as [_ Hcalls].
  - reflexivity.
  - repeat constructor.
  - reflexivity.
  - exact Hcalls.
Defined.

(** ** [activated] and the class *)

Lemma activate_classes_carries o l :
  truthy (classToRemove o) <> Some (classToAdd o) ->
  In (classToAdd o) (activate_classes o l).
Proof.
  intros Hdistinct. unfold activate_classes.
  destruct (truthy (classToRemove o)) as [r |].
  - apply In_classList_remove. split; [congruence |].
    apply In_classList_add. now left.
  - apply In_classList_add. now left.
Qed.

Lemma check_keeps_class w env st :
  truthy (classToRemove (options w)) <> Some (classToAdd (options w)) ->
  (activated st = true -> In (classToAdd (options w)) (classList st (el w))) ->
  activated (check w env st) = true ->
  In (classToAdd (options w)) (classList (check w env st) (el w)).
Proof.
  intros Hdistinct Hinv. rewrite check_transition.
  destruct (transition w env st).
  - intros _.
    destruct (once (options w) && negb (repeat (options w)));
      [change (classList (detach (activate w st)) (el w))
         with (classList (activate w st) (el w)) |];
      rewrite classList_activate; now apply activate_classes_carries.
  - discriminate.
  - exact Hinv.
Qed.

(** Whenever [activated] holds the element carries [classToAdd]:  the
    property is kept by every check, provided [classToRemove] is not
    the same name (lines 67-97). *)
Theorem activated_carries_class w envs st :
  truthy (classToRemove (options w)) <> Some (classToAdd (options w)) ->
  (activated st = true -> In (classToAdd (options w)) (classList st (el w))) ->
  activated (checks w envs st) = true ->
  In (classToAdd (options w)) (classList (checks w envs st) (el w)).
Proof.
  intros Hdistinct. revert st.
  induction envs as [| env rest IH]; intros st Hinv.
  - exact Hinv.
  - change (checks w (env :: rest) st) with (checks w rest (check w env st)).
    apply IH. now apply check_keeps_class.
Qed.

Lemma activated_carries_class_witness :
  In "inview"
    (classList (checks (sample_watcher false true)
                  [env_below; env_inside; env_below; env_inside] fresh) 7%nat).
Proof.
  apply (activated_carries_class (sample_watcher false true)
           [env_below; env_inside; env_below; env_inside] fresh).
  - discriminate.
  - discriminate.
  - reflexivity.
Defined.

(** ** The listeners *)

Section Listeners.

Variable w : Watcher.

Lemma listeners_check env st :
  (scroll_listener (check w env st) = scroll_listener st
   /\ resize_listener (check w env st) = resize_listener st)
  \/ (scroll_listener (check w env st) = false
      /\ resize_listener (check w env st) = false).
Proof.
  rewrite check_transition. destruct (transition w env st).
  - destruct (once (options w) && negb (repeat (options w))).
    + right. now split.
    + left. apply listeners_activate.
  - left. apply listeners_deactivate.
  - left. now split.
Qed.

Lemma listeners_dispatch ev st :
  (scroll_listener (dispatch w ev st) = scroll_listener st
   /\ resize_listener (dispatch w ev st) = resize_listener st)
  \/ (scroll_listener (dispatch w ev st) = false
      /\ resize_listener (dispatch w ev st) = false).
Proof.
  unfold dispatch. destruct (listening (fst ev) st).
  - apply listeners_check.
  - left. now split.
Qed.

Lemma listeners_deliver evs : forall st,
  (scroll_listener (deliver w evs st) = scroll_listener st
   /\ resize_listener (deliver w evs st) = resize_listener st)
  \/ (scroll_listener (deliver w evs st) = false
      /\ resize_listener (deliver w evs st) = false).
Proof.
  induction evs as [| ev rest IH]; intros st.
  - left. now split.
  - change (deliver w (ev :: rest) st) with (deliver w rest (dispatch w ev st)).
    destruct (IH (dispatch w ev st)) as [[Hs Hr] | Hoff]; [| now right].
    rewrite Hs, Hr. apply listeners_dispatch.
Qed.

Lemma dispatch_kind sig env st :
  scroll_listener st = resize_listener st ->
  dispatch w (sig, env) st = dispatch w (Scroll, env) st.
Proof.
  intros Heq. unfold dispatch. cbn [fst snd listening].
  destruct sig; [reflexivity | now rewrite Heq].
Qed.

Lemma deliver_as_scroll evs : forall st,
  scroll_listener st = resize_listener st ->
  deliver w evs st = deliver w (as_scroll evs) st.
Proof.
  induction evs as [| [sig env] rest IH]; intros st Heq.
  - reflexivity.
  - cbn [as_scroll map snd].
    change (deliver w ((sig, env) :: rest) st)
      with (deliver w rest (dispatch w (sig, env) st)).
    change (deliver w ((Scroll, env) :: map (fun ev => (Scroll, snd ev)) rest) st)
      with (deliver w (as_scroll rest) (dispatch w (Scroll, env) st)).
    rewrite (dispatch_kind sig env st Heq). apply IH.
    destruct (listeners_dispatch (Scroll, env) st) as [[Hs Hr] | [Hs Hr]];
      congruence.
Qed.

End Listeners.

(** No check and no signal ever registers a listener:  over any
    signals each listener is as it was or both are gone, so a removed
    listener stays removed and two listeners in the same state stay in
    the same state (lines 92-93, 100-103). *)
Theorem listeners_only_removed w evs st :
  (scroll_listener (deliver w evs st) = true -> scroll_listener st = true)
  /\ (resize_listener (deliver w evs st) = true -> resize_listener st = true)
  /\ (scroll_listener st = resize_listener st ->
      scroll_listener (deliver w evs st) = resize_listener (deliver w evs st)).
Proof.
  destruct (listeners_deliver w evs st) as [[Hs Hr] | [Hs Hr]];
    rewrite Hs, Hr; repeat split; congruence.
Qed.

(** The watcher handles scroll and resize signals alike:  from a
    state in which both listeners agree (as after construction), a run
    of signals gives the same state as the same run delivered as scroll
    signals only (lines 105-106). *)
Theorem signal_kind_irrelevant w evs st :
  scroll_listener st = resize_listener st ->
  deliver w evs st = deliver w (as_scroll evs) st.
Proof.
  apply deliver_as_scroll.
Qed.

Lemma signal_kind_irrelevant_witness :
  deliver (sample_watcher false true)
    [(Resize, env_inside); (Scroll, env_below)] fresh
  = deliver (sample_watcher false true)
      [(Scroll, env_inside); (Scroll, env_below)] fresh.
Proof.
  apply (signal_kind_irrelevant (sample_watcher false true)
           [(Resize, env_inside); (Scroll, env_below)] fresh).
  reflexivity.
Defined.

(** After [detach], called at any time and in any state, no signal
    changes anything:  a watcher detached before it activated never
    activates (lines 100-103). *)
Theorem detach_freezes w evs st :
  deliver w evs (detach st) = detach st
  /\ activated (deliver w evs (detach st)) = activated st
  /\ classList (deliver w evs (detach st)) = classList st
  /\ calls (deliver w evs (detach st)) = calls st.
Proof.
  assert (H : deliver w evs (detach st) = detach st)
    by now apply deliver_detached.
  rewrite H. repeat split.
Qed.

(** ** Construction *)

(** When the element exists, [que] leaves the watcher activated
    exactly when the first check found it in view, and both listeners
    registered unless that check was a one-shot activation
    ([once] without [repeat]) (lines 65, 92-93, 105-109). *)
Theorem que_registers (document : Document) selector opts env st e :
  document selector = Found e ->
  activated (snd (que document selector opts env st))
  = inView (merge_options opts) env
  /\ scroll_listener (snd (que document selector opts env st))
     = negb (inView (merge_options opts) env && once (merge_options opts)
             && negb (repeat (merge_options opts)))
  /\ resize_listener (snd (que document selector opts env st))
     = negb (inView (merge_options opts) env && once (merge_options opts)
             && negb (repeat (merge_options opts))).
Proof.
  intros Hsome. rewrite (que_with_element document selector opts env st e Hsome).
  cbn [snd].
  set (w := {| options := merge_options opts; el := e |}).
  set (st0 := set_listeners true true (set_activated false st)).
  change (merge_options opts) with (options w).
  split.
  - rewrite activated_check. cbn. apply orb_false_r.
  - rewrite check_transition. unfold transition.
    change (activated st0) with false. cbn [negb orb andb].
    rewrite andb_true_r.
    destruct (inView (options w) env); cbn [andb negb].
    + destruct (once (options w) && negb (repeat (options w))).
      * now split.
      * destruct (listeners_activate w st0) as [Hs Hr]. now rewrite Hs, Hr.
    + now split.
Qed.

Lemma que_registers_witness :
  scroll_listener (snd (que sample_document ".sect-1" None env_below fresh))
  = true.
Proof.
  destruct (que_registers sample_document ".sect-1" None env_below fresh 7%nat)
    as [_ [Hs _]].
  - reflexivity.
  - exact Hs.
Defined.

(** Called without options, [que] on an existing element is the
    one-shot watcher of class ["que"] with no callback:  found in view
    it gets the class and both listeners are removed, otherwise nothing
    changes but the two listeners registered;  the callback log is
    untouched either way (lines 53-60, 105-109). *)
Theorem que_by_default (document : Document) selector env st e :
  document selector = Found e ->
  fst (que document selector None env st)
  = Returned (Some {| options := defaults; el := e |})
  /\ calls (snd (que document selector None env st)) = calls st
  /\ (inView defaults env = true ->
      classList (snd (que document selector None env st)) e
      = classList_add "que" (classList st e)
      /\ scroll_listener (snd (que document selector None env st)) = false
      /\ resize_listener (snd (que document selector None env st)) = false)
  /\ (inView defaults env = false ->
      snd (que document selector None env st)
      = set_listeners true true (set_activated false st)).
Proof.
  intros Hsome. rewrite (que_with_element document selector None env st e Hsome).
  cbn [fst snd]. change (merge_options None) with defaults.
  split; [reflexivity |]. split.
  - now rewrite calls_check_silent.
  - split; intros Hv; unfold check; cbn [options]; rewrite Hv; cbn.
    + now rewrite Nat.eqb_refl.
    + reflexivity.
Qed.

Lemma que_by_default_witness :
  classList (snd (que sample_document ".sect-1" None env_inside fresh)) 7%nat
  = ["que"].
Proof.
  destruct (que_by_default sample_document ".sect-1" env_inside fresh 7%nat)
    as [_ [_ [Hin _]]].
  - reflexivity.
  - apply Hin. reflexivity.
Defined.

(** ** An empty [classToRemove] *)

(** The empty string as [classToRemove] is the same as [null]:  every
    check, and so every run, does the same (lines 69, 78). *)
Theorem empty_classToRemove_is_null w envs st :
  checks (with_classToRemove (Some "") w) envs st
  = checks (with_classToRemove None w) envs st.
Proof.
  revert st. induction envs as [| env rest IH]; intros st.
  - reflexivity.
  - change (checks (with_classToRemove (Some "") w) (env :: rest) st)
      with (checks (with_classToRemove (Some "") w) rest
              (check (with_classToRemove (Some "") w) env st)).
    change (checks (with_classToRemove None w) (env :: rest) st)
      with (checks (with_classToRemove None w) rest
              (check (with_classToRemove None w) env st)).
    rewrite IH. reflexivity.
Qed.

End Que.
